(** * Weather proxy server (src/server.ts)

    A shallow embedding of the two Express route handlers of the server,
    [GET /api/health] and [GET /api/weather], together with the part of the
    JavaScript runtime they rely on: JSON values, truthiness, property
    reads, optional chaining, nullish coalescing, exceptions and
    [try]/[catch].

    Every observable effect of a handler is recorded in a trace: reads of
    [process.env], console output, the outbound [fetch] and the read of the
    upstream body.  The upstream provider, [JSON.parse] and
    [encodeURIComponent] are not code of the repository; the first is part
    of the [world] a request runs in, the other two are taken as the
    [Builtins] of the runtime. *)

From Stdlib Require Import ZArith Floats Ascii String.
From stdpp Require Import gmap strings list pretty.

#[local] Set Warnings "-register-all,-inexact-float".
#[local] Open Scope string_scope.
#[local] Open Scope list_scope.
#[local] Open Scope Z_scope.

(** ** JavaScript values *)

(** The values [JSON.parse] produces, and the values the query parser puts
    under [req.query].  JavaScript numbers are binary64 floats. *)
Inductive json : Type :=
  | JNull
  | JBool (b : bool)
  | JNum (x : float)
  | JStr (s : string)
  | JArr (items : list json)
  | JObj (fields : gmap string json).

(** The result of a JavaScript expression of the handlers: [undefined]
    ([None]) or a JSON value. *)
Abbreviation value := (option json).
Abbreviation undefined := (@None json).

(** A thrown [Error] object: its [name] and its [message]. *)
Record exn : Type := Exn { exn_name : string; exn_message : string }.

(** The completion of an expression: a value, or a thrown exception. *)
Inductive result (A : Type) : Type :=
  | Ok (a : A)
  | Throw (e : exn).
Arguments Ok {A} a.
Arguments Throw {A} e.

#[global] Instance result_ret : MRet result := λ A a, Ok a.
#[global] Instance result_bind : MBind result := λ A B k r,
  match r with
  | Ok a => k a
  | Throw e => Throw e
  end.
#[global] Instance result_fmap : FMap result := λ A B f r,
  match r with
  | Ok a => Ok (f a)
  | Throw e => Throw e
  end.

(** [!v] is [negb (truthy v)]: the falsy values are [undefined], [null],
    [false], [0], [-0], [NaN] and the empty string. *)
Definition truthy (v : value) : bool :=
  match v with
  | None => false
  | Some JNull => false
  | Some (JBool b) => b
  | Some (JNum x) => negb (PrimFloat.is_zero x || PrimFloat.is_nan x)
  | Some (JStr s) => match s with EmptyString => false | String _ _ => true end
  | Some (JArr _) => true
  | Some (JObj _) => true
  end.

(** [v == null], the test behind [?.] and [??]. *)
Definition nullish (v : value) : bool :=
  match v with
  | None | Some JNull => true
  | Some _ => false
  end.

Definition cannot_read (base : string) (key : string) : exn :=
  Exn "TypeError"
      ("Cannot read properties of " +:+ base +:+ " (reading '" +:+ key +:+ "')").

(** [v.key] for an identifier [key].  Reading a property of [undefined] or
    [null] throws a [TypeError]; an object yields its own property or
    [undefined]; arrays and primitives have no own property under an
    identifier name, and none of the names the handlers read ([name],
    [main], [temp], [weather], [description], [icon]) is inherited from a
    built-in prototype. *)
Definition get_prop (v : value) (key : string) : result value :=
  match v with
  | None => Throw (cannot_read "undefined" key)
  | Some JNull => Throw (cannot_read "null" key)
  | Some (JObj fields) => Ok (fields !! key)
  | Some _ => Ok undefined
  end.

(** [v[i]] for a number literal [i]: the element of an array, the property
    named by the decimal digits of [i] of an object, the one-unit string at
    position [i] of a string. *)
Definition get_index (v : value) (i : nat) : result value :=
  match v with
  | None => Throw (cannot_read "undefined" (pretty i))
  | Some JNull => Throw (cannot_read "null" (pretty i))
  | Some (JArr items) => Ok (items !! i)
  | Some (JObj fields) => Ok (fields !! pretty i)
  | Some (JStr s) => Ok ((λ c, JStr (String c EmptyString)) <$> String.get i s)
  | Some _ => Ok undefined
  end.

(** [v?.rest]: [undefined] when [v] is nullish, [rest] applied to [v]
    otherwise. *)
Definition opt_chain (v : value) (rest : value → result value) : result value :=
  if nullish v then Ok undefined else rest v.

(** [v ?? d] *)
Definition coalesce (v : value) (d : json) : value :=
  if nullish v then Some d else v.

(** Built-in functions of the runtime used by the weather handler.
    [encodeURIComponent] converts its argument to a string first and throws
    a [URIError] on a lone surrogate; [JSON.parse] throws a [SyntaxError]
    on malformed text. *)
Class Builtins : Type := {
  encodeURIComponent : value → result string;
  JSON_parse : string → result json;
}.

(** ** Effects *)

Inductive event : Type :=
  | EnvRead (name : string)              (* process.env[name] *)
  | ConsoleLog (args : list value)       (* console.log(...args) *)
  | ConsoleError (e : exn)               (* console.error(e) *)
  | FetchCall (url : string)             (* fetch(url): the outbound call *)
  | BodyRead.                            (* response.text() *)

(** A computation: the events it performed, in order, and its completion. *)
Definition M (A : Type) : Type := list event * result A.

#[global] Instance M_ret : MRet M := λ A a, ([], Ok a).
#[global] Instance M_bind : MBind M := λ A B k m,
  match m with
  | (t, Ok a) => let '(t', r) := k a in (t ++ t', r)
  | (t, Throw e) => (t, Throw e)
  end.

Definition emit (ev : event) : M () := ([ev], Ok ()).
Definition lift {A : Type} (r : result A) : M A := ([], r).

(** [try { body } catch (err) { handler }] *)
Definition try_catch {A : Type} (body : M A) (handler : exn → M A) : M A :=
  match body with
  | (t, Ok a) => (t, Ok a)
  | (t, Throw e) => let '(t', r) := handler e in (t ++ t', r)
  end.

Definition console_log (args : list value) : M () := emit (ConsoleLog args).
Definition console_error (e : exn) : M () := emit (ConsoleError e).

Definition str (s : string) : value := Some (JStr s).

(** ** Requests, responses and the world *)

Record request : Type := Request {
  method : string;
  path : string;
  query : gmap string json;              (* req.query *)
}.

Record response : Type := Response {
  res_status : Z;
  res_body : json;
}.

(** A number as [JSON.stringify] writes it and a client reads it back:
    [NaN] and the infinities are written [null], [-0] is written [0], and
    any other number is written with the digits that give it back. *)
Definition stringify_number (x : float) : json :=
  if PrimFloat.is_nan x || PrimFloat.is_infinity x then JNull
  else if PrimFloat.is_zero x then JNum 0
  else JNum x.

(** The value a client reads from the text [JSON.stringify(v)], for a value
    [v] that came out of [JSON.parse]: the numbers are rewritten as above
    at every depth, and nothing else changes. *)
Fixpoint stringify (v : json) : json :=
  match v with
  | JNum x => stringify_number x
  | JArr items => JArr (stringify <$> items)
  | JObj fields => JObj (stringify <$> fields)
  | _ => v
  end.

(** [res.status(st).json(obj)] for an object literal [obj]: the body sent
    is [JSON.stringify(obj)], which leaves out the properties whose value
    is [undefined] and writes the others as [stringify] tells. *)
Definition res_json (st : Z) (obj : list (string * value)) : response :=
  Response st
    (JObj (list_to_map
             (omap (λ kv, pair kv.1 <$> (stringify <$> kv.2)) obj))).

(** What [fetch] resolves to: the status line, and the outcome of reading
    the body with [text()]. *)
Record upstream_response : Type := Upstream {
  status : Z;
  text : result string;
}.

(** [response.ok]: the status is in the range 200-299. *)
Definition ok (r : upstream_response) : bool :=
  (200 <=? status r) && (status r <=? 299).

(** What a request finds around it: the environment of the process and the
    behaviour of the network. *)
Record world : Type := World {
  process_env : gmap string string;
  fetch : string → result upstream_response;
}.

Definition getenv (w : world) (name : string) : M (option string) :=
  emit (EnvRead name);; mret (process_env w !! name).

Definition fetch_call (w : world) (url : string) : M upstream_response :=
  emit (FetchCall url);; lift (fetch w url).

Definition read_text (r : upstream_response) : M string :=
  emit BodyRead;; lift (text r).

(** ** The handlers *)

(** [app.get("/api/health", ...)] *)
Definition health_handler (_req : request) : M response :=
  mret (res_json 200 [("status", str "ok")]).

Definition weather_url (city apiKey : string) : string :=
  "https://api.openweathermap.org/data/2.5/weather?q=" +:+ city +:+
  "&appid=" +:+ apiKey +:+ "&units=metric&lang=fr".

(** The object literal of the success branch: its four property values are
    evaluated in order, and the first read that throws ends the
    evaluation. *)
Definition weather_result (data : json) : result (list (string * value)) :=
  name ← get_prop (Some data) "name";
  main ← get_prop (Some data) "main";
  temp ← get_prop main "temp";
  weather ← get_prop (Some data) "weather";
  first ← opt_chain weather (λ w, get_index w 0);
  description ← opt_chain first (λ c, get_prop c "description");
  weather' ← get_prop (Some data) "weather";
  first' ← opt_chain weather' (λ w, get_index w 0);
  icon ← opt_chain first' (λ c, get_prop c "icon");
  mret [("city", name);
        ("temp", temp);
        ("description", coalesce description (JStr "N/A"));
        ("icon", coalesce icon (JStr "N/A"))].

(** The letters [A] to [Z] as [a] to [z], every other byte as it is. *)
Definition lower (c : ascii) : ascii :=
  let n := N_of_ascii c in
  if ((65 <=? n) && (n <=? 90))%N then ascii_of_N (n + 32) else c.

Fixpoint lowercase (s : string) : string :=
  match s with
  | EmptyString => EmptyString
  | String c rest => String (lower c) (lowercase rest)
  end.

(** Express matches the path of a request against the path of a route
    with its default options: the case of the letters does not count, and
    one slash after the path of the route is allowed. *)
Definition route_matches (route p : string) : bool :=
  String.eqb (lowercase p) (lowercase route) ||
  String.eqb (lowercase p) (lowercase route +:+ "/").

Section Handlers.
Context {rt : Builtins}.

(** The body of the [try] block of [app.get("/api/weather", ...)]. *)
Definition weather_try (w : world) (req : request) : M response :=
  let city := query req !! "city" in
  if negb (truthy city) then
    mret (res_json 400 [("error", str "Paramètre 'city' manquant.")])
  else
    apiKey ← getenv w "OPENWEATHER_API_KEY";
    console_log [str "API KEY côté serveur :"; JStr <$> apiKey];;
    if negb (truthy (JStr <$> apiKey)) then
      mret (res_json 500 [("error", str "Clé API manquante côté serveur.")])
    else
      encoded ← lift (encodeURIComponent city);
      let url := weather_url encoded (default "" apiKey) in
      console_log [str "URL appelée :"; str url];;
      console_log [str "API KEY lue côté serveur :"; JStr <$> apiKey];;
      console_log [str "URL appelées :"; str url];;
      response ← fetch_call w url;
      rawText ← read_text response;
      console_log [str "Réponse brute OpenWeather :"; str rawText];;
      if negb (ok response) then
        if status response =? 404 then
          mret (res_json 404 [("error", str "Ville introuvable.")])
        else
          mret (res_json 500 [("error", str "Erreur lors de l'appel à l'API météo.")])
      else
        data ← lift (JSON_parse rawText);
        obj ← lift (weather_result data);
        mret (res_json 200 obj).

(** [app.get("/api/weather", ...)] *)
Definition weather_handler (w : world) (req : request) : M response :=
  try_catch (weather_try w req) (λ err,
    console_error err;;
    mret (res_json 500 [("error", str "Erreur serveur.")])).

(** The routes registered on [app], in order.  The [cors] and
    [express.json] middlewares registered before the routes add headers and
    parse bodies, which no handler reads. *)
Definition routes : list (string * (world → request → M response)) :=
  [("/api/health", λ _ req, health_handler req);
   ("/api/weather", weather_handler)].

(** The first route whose path matches runs.  A route registered with
    [app.get] also answers [HEAD]; what the handler hands to [res.json] is
    the same for both methods, and [sent_body] tells what of it is sent. *)
Definition dispatch (w : world) (req : request) : option (M response) :=
  if bool_decide (method req = "GET" ∨ method req = "HEAD") then
    found ← list_find (λ route, route_matches route.1 (path req) = true) routes;
    Some (found.2.2 w req)
  else None.
End Handlers.

(** To a [HEAD] request Express sends the status and the headers of the
    answer and leaves the body out. *)
Definition sent_body (req : request) (resp : response) : option json :=
  if bool_decide (method req = "HEAD") then None else Some (res_body resp).

(** ** The process *)

(** [process.env.PORT || 3000] *)
Definition PORT (env : gmap string string) : json :=
  match env !! "PORT" with
  | Some p => if truthy (str p) then JStr p else JNum 3000
  | None => JNum 3000
  end.

(** The text of [PORT] in a template literal: the string itself, or the
    digits of the number 3000. *)
Definition port_text (p : json) : string :=
  match p with
  | JStr s => s
  | _ => "3000"
  end.

(** The callback given to [app.listen(PORT, ...)], which runs once the
    server listens: it reports the port.  Whether [listen] gets there (the
    port may be out of range or taken) is not decided here. *)
Definition startup (env : gmap string string) : M () :=
  console_log [str ("Server listening on port " +:+ port_text (PORT env))].

(** A request reaching the process, with the behaviour of the network at
    that moment. *)
Record arrival : Type := Arrival {
  arriving : request;
  network : string → result upstream_response;
}.

Section Process.
Context {rt : Builtins}.

(** The requests of a run, answered one after the other.  [env] is
    [process.env] as [import "dotenv/config"] and the launch of the process
    left it: no statement of the program assigns to it, so every request
    finds the same one.  A request no route matches gets no answer from
    these handlers ([None]).  [run] is the run of a process that came to
    listen: the callback of [listen], then the requests. *)
Fixpoint serve (env : gmap string string) (arrivals : list arrival)
  : list event * list (option (result response)) :=
  match arrivals with
  | [] => ([], [])
  | a :: rest =>
      let '(t, answer) :=
        match dispatch (World env (network a)) (arriving a) with
        | Some (t, r) => (t, Some r)
        | None => ([], None)
        end in
      let '(t', answers) := serve env rest in
      (t ++ t', answer :: answers)
  end.

Definition run (env : gmap string string) (arrivals : list arrival)
  : list event * list (option (result response)) :=
  let '(t0, _) := startup env in
  let '(t, answers) := serve env arrivals in
  (t0 ++ t, answers).
End Process.

(** ** Vocabulary of the statements *)

(** The error outcomes of the weather handler, with the status and the
    message each one is sent with. *)
Inductive error_kind : Type :=
  | MissingParameter
  | ServerMisconfigured
  | CityNotFound
  | UpstreamError
  | InternalError.

Definition error_status (k : error_kind) : Z :=
  match k with
  | MissingParameter => 400
  | ServerMisconfigured => 500
  | CityNotFound => 404
  | UpstreamError => 500
  | InternalError => 500
  end.

Definition error_message (k : error_kind) : string :=
  match k with
  | MissingParameter => "Paramètre 'city' manquant."
  | ServerMisconfigured => "Clé API manquante côté serveur."
  | CityNotFound => "Ville introuvable."
  | UpstreamError => "Erreur lors de l'appel à l'API météo."
  | InternalError => "Erreur serveur."
  end.

(** A body with the single field [error]. *)
Definition error_response (k : error_kind) : response :=
  Response (error_status k) (JObj {["error" := JStr (error_message k)]}).

(** A request the weather route answers. *)
Definition weather_request (req : request) : Prop :=
  (method req = "GET" ∨ method req = "HEAD") ∧ path req = "/api/weather".

(** A request Express hands to the weather handler. *)
Definition weather_route (req : request) : Prop :=
  (method req = "GET" ∨ method req = "HEAD") ∧
  route_matches "/api/weather" (path req) = true.

(** The events up to the credential check. *)
Definition key_trace (apiKey : option string) : list event :=
  [EnvRead "OPENWEATHER_API_KEY";
   ConsoleLog [str "API KEY côté serveur :"; JStr <$> apiKey]].

(** The events from the credential check up to and including the outbound
    call. *)
Definition call_trace (apiKey : option string) (url : string) : list event :=
  [ConsoleLog [str "URL appelée :"; str url];
   ConsoleLog [str "API KEY lue côté serveur :"; JStr <$> apiKey];
   ConsoleLog [str "URL appelées :"; str url];
   FetchCall url].

(** The events of a request whose upstream body has been read. *)
Definition body_trace (apiKey : option string) (url rawText : string) : list event :=
  key_trace apiKey ++ call_trace apiKey url ++
  [BodyRead; ConsoleLog [str "Réponse brute OpenWeather :"; str rawText]].

(** No outbound call among the events. *)
Definition no_fetch (t : list event) : Prop := ∀ url, FetchCall url ∉ t.

(** The URLs of the outbound calls among the events, in order. *)
Definition fetch_calls (t : list event) : list string :=
  omap (λ ev, match ev with FetchCall url => Some url | _ => None end) t.

(** The payload is as the upstream interface promises in the fields the
    handler reads without a guard: [name] is a string and [main] an object
    whose [temp] is a number. *)
Definition unguarded_fields_expected (data : json) : Prop :=
  ∃ fields name main temp,
    data = JObj fields ∧ fields !! "name" = Some (JStr name) ∧
    fields !! "main" = Some (JObj main) ∧ main !! "temp" = Some (JNum temp).

(** The payloads on which an unguarded read fails: [null], whose [name]
    cannot be read, and those whose [main] is absent or [null], whose
    [main.temp] cannot be read. *)
Definition unreadable (data : json) : Prop :=
  data = JNull ∨ ∃ main, get_prop (Some data) "main" = Ok main ∧ nullish main = true.

Section Raising.
Context {rt : Builtins}.

(** The request passes the two checks with credential [key]. *)
Definition accepted (w : world) (req : request) (key : string) : Prop :=
  truthy (query req !! "city") = true ∧
  process_env w !! "OPENWEATHER_API_KEY" = Some key ∧
  truthy (str key) = true.

(** What the outbound calls of one request of a run can be: at most one,
    made for a request handed to the weather handler that passes both
    checks, to the URL of its encoded city and the credential. *)
Definition calls_of_arrival (env : gmap string string) (a : arrival)
    (calls : list string) : Prop :=
  (length calls ≤ 1)%nat ∧
  ∀ url, url ∈ calls →
    weather_route (arriving a) ∧
    ∃ key encoded,
      accepted (World env (network a)) (arriving a) key ∧
      encodeURIComponent (query (arriving a) !! "city") = Ok encoded ∧
      url = weather_url encoded key.

(** The places of the [try] block where an exception [e] can arise:
    encoding the city, the outbound call, the read of the body, parsing the
    body, and reading the fields of the payload. *)
Inductive raises (w : world) (req : request) (e : exn) : Prop :=
  | Raises_encode key :
      accepted w req key →
      encodeURIComponent (query req !! "city") = Throw e →
      raises w req e
  | Raises_fetch key encoded :
      accepted w req key →
      encodeURIComponent (query req !! "city") = Ok encoded →
      fetch w (weather_url encoded key) = Throw e →
      raises w req e
  | Raises_text key encoded r :
      accepted w req key →
      encodeURIComponent (query req !! "city") = Ok encoded →
      fetch w (weather_url encoded key) = Ok r →
      text r = Throw e →
      raises w req e
  | Raises_parse key encoded r rawText :
      accepted w req key →
      encodeURIComponent (query req !! "city") = Ok encoded →
      fetch w (weather_url encoded key) = Ok r →
      text r = Ok rawText → ok r = true →
      JSON_parse rawText = Throw e →
      raises w req e
  | Raises_shape key encoded r rawText data :
      accepted w req key →
      encodeURIComponent (query req !! "city") = Ok encoded →
      fetch w (weather_url encoded key) = Ok r →
      text r = Ok rawText → ok r = true →
      JSON_parse rawText = Ok data →
      weather_result data = Throw e →
      raises w req e.

(** The paths through the [try] block: the events performed and the
    completion reached on each. *)
Inductive try_path (w : world) (req : request) : M response → Prop :=
  | Path_no_city :
      truthy (query req !! "city") = false →
      try_path w req ([], Ok (error_response MissingParameter))
  | Path_no_key :
      truthy (query req !! "city") = true →
      truthy (JStr <$> process_env w !! "OPENWEATHER_API_KEY") = false →
      try_path w req (key_trace (process_env w !! "OPENWEATHER_API_KEY"),
                      Ok (error_response ServerMisconfigured))
  | Path_encode key e :
      accepted w req key →
      encodeURIComponent (query req !! "city") = Throw e →
      try_path w req (key_trace (Some key), Throw e)
  | Path_fetch key encoded e :
      accepted w req key →
      encodeURIComponent (query req !! "city") = Ok encoded →
      fetch w (weather_url encoded key) = Throw e →
      try_path w req (key_trace (Some key) ++
                      call_trace (Some key) (weather_url encoded key), Throw e)
  | Path_text key encoded r e :
      accepted w req key →
      encodeURIComponent (query req !! "city") = Ok encoded →
      fetch w (weather_url encoded key) = Ok r →
      text r = Throw e →
      try_path w req (key_trace (Some key) ++
                      call_trace (Some key) (weather_url encoded key) ++
                      [BodyRead], Throw e)
  | Path_not_ok key encoded r rawText :
      accepted w req key →
      encodeURIComponent (query req !! "city") = Ok encoded →
      fetch w (weather_url encoded key) = Ok r →
      text r = Ok rawText → ok r = false →
      try_path w req
        (body_trace (Some key) (weather_url encoded key) rawText,
         Ok (error_response
               (if status r =? 404 then CityNotFound else UpstreamError)))
  | Path_parse key encoded r rawText e :
      accepted w req key →
      encodeURIComponent (query req !! "city") = Ok encoded →
      fetch w (weather_url encoded key) = Ok r →
      text r = Ok rawText → ok r = true →
      JSON_parse rawText = Throw e →
      try_path w req
        (body_trace (Some key) (weather_url encoded key) rawText, Throw e)
  | Path_parsed key encoded r rawText data :
      accepted w req key →
      encodeURIComponent (query req !! "city") = Ok encoded →
      fetch w (weather_url encoded key) = Ok r →
      text r = Ok rawText → ok r = true →
      JSON_parse rawText = Ok data →
      try_path w req
        (body_trace (Some key) (weather_url encoded key) rawText,
         res_json 200 <$> weather_result data).

(** The answers of the weather handler, each with what brings it about:
    the five error answers, made of the status and the message of their
    kind, and the success answer. *)
Inductive outcome (w : world) (req : request) : response → Prop :=
  | Outcome_missing_parameter :
      truthy (query req !! "city") = false →
      outcome w req (error_response MissingParameter)
  | Outcome_misconfigured :
      truthy (query req !! "city") = true →
      truthy (JStr <$> process_env w !! "OPENWEATHER_API_KEY") = false →
      outcome w req (error_response ServerMisconfigured)
  | Outcome_city_not_found key encoded r rawText :
      accepted w req key →
      encodeURIComponent (query req !! "city") = Ok encoded →
      fetch w (weather_url encoded key) = Ok r →
      text r = Ok rawText → status r = 404 →
      outcome w req (error_response CityNotFound)
  | Outcome_upstream_error key encoded r rawText :
      accepted w req key →
      encodeURIComponent (query req !! "city") = Ok encoded →
      fetch w (weather_url encoded key) = Ok r →
      text r = Ok rawText → ok r = false → status r ≠ 404 →
      outcome w req (error_response UpstreamError)
  | Outcome_internal_error e :
      raises w req e →
      outcome w req (error_response InternalError)
  | Outcome_success key encoded r rawText data obj :
      accepted w req key →
      encodeURIComponent (query req !! "city") = Ok encoded →
      fetch w (weather_url encoded key) = Ok r →
      text r = Ok rawText → ok r = true →
      JSON_parse rawText = Ok data →
      weather_result data = Ok obj →
      outcome w req (res_json 200 obj).
End Raising.

(** ** Example inputs *)

(** The characters [encodeURIComponent] leaves as they are. *)
Definition unreserved (c : ascii) : bool :=
  let n := N_of_ascii c in
  ((65 <=? n) && (n <=? 90) || (97 <=? n) && (n <=? 122) ||
   (48 <=? n) && (n <=? 57))%N ||
  bool_decide (c ∈ [("-")%char; ("_")%char; (".")%char; ("!")%char; ("~")%char;
                    ("*")%char; ("'")%char; ("(")%char; (")")%char]).

Definition hex_digit (n : N) : ascii :=
  ascii_of_N (if (n <? 10)%N then 48 + n else 55 + n).

(** Percent-encoding of a string held as UTF-8. *)
Fixpoint percent_encode (s : string) : string :=
  match s with
  | EmptyString => EmptyString
  | String c rest =>
      if unreserved c then String c (percent_encode rest)
      else
        let n := N_of_ascii c in
        String "%" (String (hex_digit (n / 16)) (String (hex_digit (n mod 16))
          (percent_encode rest)))
  end.

(** The double quote, and a quoted JSON string without escapes. *)
Definition dquote : string := String (ascii_of_N 34) EmptyString.
Definition quoted (s : string) : string := dquote +:+ s +:+ dquote.

Definition clear_sky : json :=
  JObj (<["description" := JStr "ciel dégagé"]> {["icon" := JStr "01d"]}).
Definition clear_sky_text : string :=
  "{" +:+ quoted "description" +:+ ":" +:+ quoted "ciel dégagé" +:+ "," +:+
  quoted "icon" +:+ ":" +:+ quoted "01d" +:+ "}".
Definition paris_main : json := JObj {["temp" := JNum 15.2]}.
Definition paris_main_text : string := "{" +:+ quoted "temp" +:+ ":15.2}".

(** [{name:"Paris",main:{temp:15.2},weather:[{description:"ciel dégagé",icon:"01d"}]}] *)
Definition paris_payload : json :=
  JObj (<["name" := JStr "Paris"]> (<["main" := paris_main]>
         {["weather" := JArr [clear_sky]]})).
Definition paris_text : string :=
  "{" +:+ quoted "name" +:+ ":" +:+ quoted "Paris" +:+ "," +:+
  quoted "main" +:+ ":" +:+ paris_main_text +:+ "," +:+
  quoted "weather" +:+ ":[" +:+ clear_sky_text +:+ "]}".

(** The same payload with [weather] empty. *)
Definition calm_payload : json :=
  JObj (<["name" := JStr "Paris"]> (<["main" := paris_main]>
         {["weather" := JArr []]})).
Definition calm_text : string :=
  "{" +:+ quoted "name" +:+ ":" +:+ quoted "Paris" +:+ "," +:+
  quoted "main" +:+ ":" +:+ paris_main_text +:+ "," +:+
  quoted "weather" +:+ ":[]}".

(** The same payload without [name]. *)
Definition nameless_payload : json :=
  JObj (<["main" := paris_main]> {["weather" := JArr [clear_sky]]}).
Definition nameless_text : string :=
  "{" +:+ quoted "main" +:+ ":" +:+ paris_main_text +:+ "," +:+
  quoted "weather" +:+ ":[" +:+ clear_sky_text +:+ "]}".

(** The same payload without [main]. *)
Definition mainless_payload : json :=
  JObj (<["name" := JStr "Paris"]> {["weather" := JArr [clear_sky]]}).
Definition mainless_text : string :=
  "{" +:+ quoted "name" +:+ ":" +:+ quoted "Paris" +:+ "," +:+
  quoted "weather" +:+ ":[" +:+ clear_sky_text +:+ "]}".

Definition syntax_error : exn := Exn "SyntaxError" "Unexpected end of JSON input".
Definition fetch_failed : exn := Exn "TypeError" "fetch failed".

(** The string a value is converted to before it is encoded: an array is
    the texts of its elements joined by commas, with nothing for [null],
    and an object is [[object Object]].  The text of a number is left out
    ([None]): a query parser puts strings, arrays and objects under
    [req.query], never a number. *)
Fixpoint to_string (v : json) : option string :=
  match v with
  | JNull => Some "null"
  | JBool b => Some (if b then "true" else "false")
  | JNum _ => None
  | JStr s => Some s
  | JArr items =>
      (fix join (l : list json) : option string :=
         match l with
         | [] => Some ""
         | x :: rest =>
             s ← match x with JNull => Some "" | _ => to_string x end;
             match rest with
             | [] => Some s
             | _ => t ← join rest; Some (s +:+ "," +:+ t)
             end
         end) items
  | JObj _ => Some "[object Object]"
  end.

(** The two built-ins as far as the examples need them.
    [encodeURIComponent] on the text of its argument, held as UTF-8: every
    byte outside the unreserved set is percent-encoded.  [JSON.parse] as a
    table: the four texts above parse to their payloads, and the examples
    treat any other text as malformed. *)
Definition example_encode (v : value) : result string :=
  match v with
  | None => Ok "undefined"
  | Some j =>
      match to_string j with
      | Some s => Ok (percent_encode s)
      | None => Throw (Exn "URIError" "URI malformed")
      end
  end.

Definition example_parse (rawText : string) : result json :=
  if String.eqb rawText paris_text then Ok paris_payload
  else if String.eqb rawText calm_text then Ok calm_payload
  else if String.eqb rawText nameless_text then Ok nameless_payload
  else if String.eqb rawText mainless_text then Ok mainless_payload
  else Throw syntax_error.

Definition example_builtins : Builtins :=
  {| encodeURIComponent := example_encode; JSON_parse := example_parse |}.

Definition example_env : gmap string string :=
  {["OPENWEATHER_API_KEY" := "k3y"]}.

(** A request for the weather of [city], and a world whose upstream answers
    every call with status [st] and body [body]. *)
Definition ask (city : string) : request :=
  Request "GET" "/api/weather" {["city" := JStr city]}.
Definition answering (st : Z) (body : string) : world :=
  World example_env (λ _, Ok (Upstream st (Ok body))).
Definition unreachable : world :=
  World example_env (λ _, Throw fetch_failed).

(** A world whose upstream answers 404 and then fails while its body is
    read. *)
Definition cut_short : world :=
  World example_env (λ _, Ok (Upstream 404 (Throw fetch_failed))).

(** Three requests reaching a process, two of them for the weather. *)
Definition example_arrivals : list arrival :=
  [Arrival (ask "Paris") (λ _, Ok (Upstream 200 (Ok paris_text)));
   Arrival (Request "GET" "/api/health" ∅) (λ _, Throw fetch_failed);
   Arrival (ask "Lyon") (λ _, Throw fetch_failed)].

(** A string held as UTF-8 has a lone surrogate where a byte [ED] is
    followed by a byte from [A0] on: the code points U+D800 to U+DFFF.
    [encodeURIComponent] throws a [URIError] on such a string. *)
Fixpoint lone_surrogate (s : string) : bool :=
  match s with
  | String c (String d _ as rest) =>
      ((N_of_ascii c =? 237) && (160 <=? N_of_ascii d))%N || lone_surrogate rest
  | _ => false
  end.

Definition checked_encode (v : value) : result string :=
  match v with
  | None => Ok "undefined"
  | Some j =>
      match to_string j with
      | Some s =>
          if lone_surrogate s then Throw (Exn "URIError" "URI malformed")
          else Ok (percent_encode s)
      | None => Throw (Exn "URIError" "URI malformed")
      end
  end.

Definition checked_builtins : Builtins :=
  {| encodeURIComponent := checked_encode; JSON_parse := example_parse |}.

(** The one-unit string U+D800. *)
Definition high_surrogate : string :=
  String (ascii_of_N 237) (String (ascii_of_N 160) (String (ascii_of_N 128) "")).

(** * Properties *)

Arguments truthy : simpl never.
Arguments weather_url : simpl never.
Arguments res_json : simpl never.
Arguments ok : simpl never.
Arguments weather_result : simpl never.
Arguments route_matches : simpl never.

(** ** Sanity checks of the runtime model *)

Example encode_paris : percent_encode "Paris" = "Paris".
Proof. reflexivity. Qed.

Example encode_sao_paulo : percent_encode "São Paulo" = "S%C3%A3o%20Paulo".
Proof. reflexivity. Qed.

Example result_paris :
  weather_result paris_payload =
    Ok [("city", str "Paris"); ("temp", Some (JNum 15.2));
        ("description", str "ciel dégagé"); ("icon", str "01d")].
Proof. reflexivity. Qed.

Example result_string_weather :
  weather_result (JObj (<["main" := paris_main]> {["weather" := JStr "rain"]})) =
    Ok [("city", undefined); ("temp", Some (JNum 15.2));
        ("description", str "N/A"); ("icon", str "N/A")].
Proof. reflexivity. Qed.

Example stringify_numbers :
  stringify (JObj {["a" := JArr [JNum infinity; JNum (-0); JNum 15.2; JStr "x"]]}) =
    JObj {["a" := JArr [JNull; JNum 0; JNum 15.2; JStr "x"]]}.
Proof. reflexivity. Qed.

Example res_json_infinite_temp :
  res_json 200 [("city", str "Paris"); ("temp", Some (JNum infinity))] =
    Response 200 (JObj (<["city" := JStr "Paris"]> {["temp" := JNull]})).
Proof. reflexivity. Qed.

Example route_matches_variants :
  route_matches "/api/weather" "/API/Weather/" = true ∧
  route_matches "/api/weather" "/api/weather//" = false ∧
  route_matches "/api/health" "/api/weather" = false.
Proof. repeat split. Qed.

Example encode_array :
  example_encode (Some (JArr [JStr "a"; JStr "b"])) = Ok "a%2Cb".
Proof. reflexivity. Qed.

Example res_json_drops_undefined :
  res_json 200 [("city", undefined); ("temp", Some (JNum 15.2))] =
    Response 200 (JObj {["temp" := JNum 15.2]}).
Proof. reflexivity. Qed.

(** ** The stages of the weather handler *)

Section Stages.
Context `{Builtins}.
Variables (w : world) (req : request).

Lemma try_no_city :
  truthy (query req !! "city") = false →
  weather_try w req = ([], Ok (error_response MissingParameter)).
Proof. intros Hc. unfold weather_try. rewrite Hc. reflexivity. Qed.

Section WithCity.
Hypothesis Hcity : truthy (query req !! "city") = true.

Lemma try_no_key :
  truthy (JStr <$> process_env w !! "OPENWEATHER_API_KEY") = false →
  weather_try w req =
    (key_trace (process_env w !! "OPENWEATHER_API_KEY"),
     Ok (error_response ServerMisconfigured)).
Proof.
  intros Hk. unfold weather_try. rewrite Hcity. cbn. rewrite Hk. reflexivity.
Qed.

Section WithKey.
Variable key : string.
Hypothesis Hkey : process_env w !! "OPENWEATHER_API_KEY" = Some key.
Hypothesis Hkey_set : truthy (str key) = true.

Ltac enter :=
  unfold weather_try; rewrite Hcity; cbn; rewrite Hkey; cbn;
  fold (str key); rewrite Hkey_set.

Lemma try_encode_throws e :
  encodeURIComponent (query req !! "city") = Throw e →
  weather_try w req = (key_trace (Some key), Throw e).
Proof. intros He. enter. rewrite He. reflexivity. Qed.

Section WithUrl.
Variable encoded : string.
Hypothesis Hencoded : encodeURIComponent (query req !! "city") = Ok encoded.
#[local] Abbreviation url := (weather_url encoded key).

Lemma try_fetch_throws e :
  fetch w url = Throw e →
  weather_try w req = (key_trace (Some key) ++ call_trace (Some key) url, Throw e).
Proof. intros He. enter. rewrite Hencoded. cbn. rewrite He. reflexivity. Qed.

Lemma try_text_throws r e :
  fetch w url = Ok r → text r = Throw e →
  weather_try w req =
    (key_trace (Some key) ++ call_trace (Some key) url ++ [BodyRead], Throw e).
Proof.
  intros Hr He. enter. rewrite Hencoded. cbn. rewrite Hr. cbn.
  rewrite He. reflexivity.
Qed.

Section WithBody.
Variables (r : upstream_response) (rawText : string).
Hypothesis Hfetch : fetch w url = Ok r.
Hypothesis Htext : text r = Ok rawText.

Ltac reach :=
  enter; rewrite Hencoded; cbn; rewrite Hfetch; cbn; rewrite Htext; cbn.

Lemma try_not_ok :
  ok r = false →
  weather_try w req =
    (body_trace (Some key) url rawText,
     Ok (error_response (if status r =? 404 then CityNotFound else UpstreamError))).
Proof.
  intros Hok. reach. rewrite Hok. cbn. destruct (status r =? 404); reflexivity.
Qed.

Lemma try_parse_throws e :
  ok r = true → JSON_parse rawText = Throw e →
  weather_try w req = (body_trace (Some key) url rawText, Throw e).
Proof. intros Hok He. reach. rewrite Hok, He. reflexivity. Qed.

Lemma try_parsed data :
  ok r = true → JSON_parse rawText = Ok data →
  weather_try w req =
    (body_trace (Some key) url rawText, res_json 200 <$> weather_result data).
Proof.
  intros Hok Hd. reach. rewrite Hok, Hd. cbn.
  destruct (weather_result data); reflexivity.
Qed.

End WithBody.
End WithUrl.
End WithKey.
End WithCity.
End Stages.

(** ** From the [try] block to the handler *)

Section Catch.
Context `{Builtins}.
Variables (w : world) (req : request).

Lemma handler_of_ok t resp :
  weather_try w req = (t, Ok resp) → weather_handler w req = (t, Ok resp).
Proof. intros Ht. unfold weather_handler. rewrite Ht. reflexivity. Qed.

Lemma handler_of_throw t e :
  weather_try w req = (t, Throw e) →
  weather_handler w req = (t ++ [ConsoleError e], Ok (error_response InternalError)).
Proof. intros Ht. unfold weather_handler. rewrite Ht. reflexivity. Qed.

(** The places listed by [raises] are places where the [try] block
    throws, and there is no other. *)
Lemma raises_sound e :
  raises w req e → ∃ t, weather_try w req = (t, Throw e).
Proof.
  destruct 1 as [key [Hc [Hk Hs]] He
                |key enc [Hc [Hk Hs]] Henc He
                |key enc r [Hc [Hk Hs]] Henc Hr He
                |key enc r raw [Hc [Hk Hs]] Henc Hr Hraw Hok He
                |key enc r raw data [Hc [Hk Hs]] Henc Hr Hraw Hok Hd He].
  - eexists. by apply try_encode_throws with (key := key).
  - eexists. by apply try_fetch_throws with (key := key) (encoded := enc).
  - eexists. by apply try_text_throws with (key := key) (encoded := enc) (r := r).
  - eexists. by eapply try_parse_throws.
  - eexists. erewrite try_parsed by eassumption. rewrite He. reflexivity.
Qed.

(** Every request follows one of the paths. *)
Lemma weather_try_path : try_path w req (weather_try w req).
Proof.
  destruct (truthy (query req !! "city")) eqn:Hc;
    [|rewrite try_no_city by done; by constructor].
  destruct (truthy (JStr <$> process_env w !! "OPENWEATHER_API_KEY")) eqn:Hs;
    [|rewrite try_no_key by done; by constructor].
  destruct (process_env w !! "OPENWEATHER_API_KEY") as [key|] eqn:Hk;
    [|discriminate].
  assert (accepted w req key) as Hacc by done.
  destruct (encodeURIComponent (query req !! "city")) as [enc|e] eqn:Henc.
  2:{ rewrite (try_encode_throws w req Hc key Hk Hs e) by done.
      by eapply Path_encode. }
  destruct (fetch w (weather_url enc key)) as [r|e] eqn:Hr.
  2:{ rewrite (try_fetch_throws w req Hc key Hk Hs enc Henc e) by done.
      by eapply Path_fetch. }
  destruct (text r) as [raw|e] eqn:Hraw.
  2:{ rewrite (try_text_throws w req Hc key Hk Hs enc Henc r e) by done.
      by eapply Path_text. }
  destruct (ok r) eqn:Hok.
  2:{ rewrite (try_not_ok w req Hc key Hk Hs enc Henc r raw) by done.
      by eapply Path_not_ok. }
  destruct (JSON_parse raw) as [data|e] eqn:Hd.
  2:{ rewrite (try_parse_throws w req Hc key Hk Hs enc Henc r raw Hr Hraw e)
        by done.
      by eapply Path_parse. }
  rewrite (try_parsed w req Hc key Hk Hs enc Henc r raw Hr Hraw data) by done.
  by eapply Path_parsed.
Qed.

Lemma raises_complete t e :
  weather_try w req = (t, Throw e) → raises w req e.
Proof.
  intros Ht. pose proof weather_try_path as Hp. rewrite Ht in Hp.
  inversion Hp; subst.
  1-4: eauto using Raises_encode, Raises_fetch, Raises_text, Raises_parse.
  destruct (weather_result data) as [obj|e'] eqn:He; simplify_eq/=.
  eauto using Raises_shape.
Qed.

(** The [try] block completes with a success answer or with one of the
    error answers. *)
Lemma try_ok_cases t resp :
  weather_try w req = (t, Ok resp) →
  (∃ obj, resp = res_json 200 obj) ∨ (∃ k, resp = error_response k).
Proof.
  intros Ht. pose proof weather_try_path as Hp. rewrite Ht in Hp.
  inversion Hp; subst; try (right; by eexists).
  left. destruct (weather_result data) as [obj|]; simplify_eq/=.
  by exists obj.
Qed.

(** With a [city], the credential is read and logged first. *)
Lemma try_reads_key :
  truthy (query req !! "city") = true →
  ∃ t, (weather_try w req).1 =
         key_trace (process_env w !! "OPENWEATHER_API_KEY") ++ t.
Proof.
  intros Hc. destruct weather_try_path as
    [?|? ?|key e [_ [-> _]]|key enc e [_ [-> _]]|key enc r e [_ [-> _]]
     |key enc r raw [_ [-> _]]|key enc r raw e [_ [-> _]]
     |key enc r raw data [_ [-> _]]];
    [congruence|by exists []|by exists []|by eexists..].
Qed.
End Catch.

(** ** Reading the payload *)

(** The guarded reads never throw. *)
Lemma guarded_read (v : value) (key : string) :
  ∃ field,
    (first ← opt_chain v (λ w, get_index w 0);
     opt_chain first (λ c, get_prop c key)) = Ok field.
Proof.
  unfold opt_chain.
  destruct v as [[| | | |items|fields]|]; cbn; try (eexists; reflexivity).
  - destruct (String.get 0 s); cbn; eexists; reflexivity.
  - destruct (items !! 0%nat) as [[]|]; cbn; eexists; reflexivity.
  - destruct (fields !! pretty 0%nat) as [[]|]; cbn; eexists; reflexivity.
Qed.

Lemma weather_result_unreadable (data : json) :
  unreadable data → ∃ e, weather_result data = Throw e ∧ exn_name e = "TypeError".
Proof.
  intros [->|(main & Hmain & Hnull)].
  { exists (cannot_read "null" "name"). split; reflexivity. }
  destruct data as [| | | | |fields]; cbn in Hmain; try discriminate;
    injection Hmain as <-.
  1-4: exists (cannot_read "undefined" "temp"); split; reflexivity.
  destruct (fields !! "main") as [[]|] eqn:Hfield; try discriminate.
  - exists (cannot_read "null" "temp"). split; [|reflexivity].
    unfold weather_result. cbn. rewrite Hfield. reflexivity.
  - exists (cannot_read "undefined" "temp"). split; [|reflexivity].
    unfold weather_result. cbn. rewrite Hfield. reflexivity.
Qed.

Lemma weather_result_readable (data : json) :
  ¬ unreadable data → ∃ obj, weather_result data = Ok obj.
Proof.
  intros Hread. unfold weather_result.
  destruct data as [| | | | |fields].
  1: destruct Hread; by left.
  1-4: destruct Hread; right; by eexists.
  cbn. destruct (fields !! "main") as [main|] eqn:Hmain.
  2:{ destruct Hread; right; eexists; split; [cbn; by rewrite Hmain|done]. }
  destruct (nullish (Some main)) eqn:Hmn.
  { destruct Hread; right; eexists; split; [cbn; by rewrite Hmain|done]. }
  assert (∃ temp, get_prop (Some main) "temp" = Ok temp) as [temp ->]
    by (destruct main; try done; by eexists).
  cbn.
  destruct (guarded_read (fields !! "weather") "description") as [d Hd].
  destruct (guarded_read (fields !! "weather") "icon") as [i Hi].
  cbn in Hd, Hi.
  destruct (opt_chain (fields !! "weather") _) as [first|]; [|done].
  cbn in *. rewrite Hd, Hi. by eexists.
Qed.

Lemma bind_ok {A B : Type} (r : result A) (k : A → result B) (b : B) :
  r ≫= k = Ok b → ∃ a, r = Ok a ∧ k a = Ok b.
Proof. destruct r as [a|e]; [by exists a|discriminate]. Qed.

Lemma coalesce_not_null (v : value) (d : json) :
  d ≠ JNull → ∃ x, coalesce v d = Some x ∧ x ≠ JNull.
Proof. intros Hd. destruct v as [[]|]; cbn; eauto. Qed.

Lemma no_fetch_nil : no_fetch [].
Proof. intros url Hin. by apply elem_of_nil in Hin. Qed.

Lemma no_fetch_key_trace apiKey : no_fetch (key_trace apiKey).
Proof.
  intros url Hin. unfold key_trace in Hin.
  repeat (apply elem_of_cons in Hin as [Hin|Hin]; [discriminate|]).
  by apply elem_of_nil in Hin.
Qed.

Lemma no_fetch_app t t' : no_fetch t → no_fetch t' → no_fetch (t ++ t').
Proof. intros Ht Ht' url [Hin|Hin]%elem_of_app; [by eapply Ht|by eapply Ht']. Qed.

(** ** The weather handler *)



(** C2. When the upstream call succeeds and the parsed payload has
    [weather] absent or an empty array, the handler answers 200 with
    [description] and [icon] both ["N/A"], while [city] and [temp] are
    what [res.json] sends for the payload's [name] and [main.temp], as in
    the normal success case: the same values, a number written the way
    [JSON.stringify] writes it. *)
Theorem weather_defaults {rt : Builtins} (w : world) (req : request)
    (key encoded rawText : string) (r : upstream_response)
    (fields : gmap string json) (main : json) (temp : value) :
  accepted w req key →
  encodeURIComponent (query req !! "city") = Ok encoded →
  fetch w (weather_url encoded key) = Ok r → text r = Ok rawText →
  ok r = true →
  JSON_parse rawText = Ok (JObj fields) →
  fields !! "main" = Some main → get_prop (Some main) "temp" = Ok temp →
  fields !! "weather" = None ∨ fields !! "weather" = Some (JArr []) →
  ∃ body : gmap string json,
    (weather_handler w req).2 = Ok (Response 200 (JObj body)) ∧
    body !! "description" = Some (JStr "N/A") ∧
    body !! "icon" = Some (JStr "N/A") ∧
    body !! "city" = stringify <$> fields !! "name" ∧
    body !! "temp" = stringify <$> temp ∧
    (∀ weather obj,
       weather_result (JObj (<["weather" := weather]> fields)) = Ok obj →
       ∃ body' : gmap string json,
         res_json 200 obj = Response 200 (JObj body') ∧
         body' !! "city" = body !! "city" ∧ body' !! "temp" = body !! "temp").
Proof.
  intros (Hc & Hk & Hs) Henc Hr Hraw Hok Hd Hmain Htemp Hweather.
  assert (weather_result (JObj fields) =
          Ok [("city", fields !! "name"); ("temp", temp);
              ("description", str "N/A"); ("icon", str "N/A")]) as Hobj.
  { unfold weather_result. cbn. rewrite Hmain. cbn.
    cbn in Htemp. rewrite Htemp. cbn.
    destruct Hweather as [->| ->]; reflexivity. }
  eexists. split; [|split_and!].
  - erewrite handler_of_ok; [reflexivity|].
    rewrite (try_parsed w req Hc key Hk Hs encoded Henc r rawText Hr Hraw _ Hok Hd).
    rewrite Hobj. reflexivity.
  - destruct (fields !! "name"), temp; reflexivity.
  - destruct (fields !! "name"), temp; reflexivity.
  - destruct (fields !! "name"), temp; reflexivity.
  - destruct (fields !! "name"), temp; reflexivity.
  - intros weather obj Hobj'. unfold weather_result in Hobj'.
    apply bind_ok in Hobj' as (name' & Hname' & Hobj').
    apply bind_ok in Hobj' as (main' & Hmain' & Hobj').
    apply bind_ok in Hobj' as (temp' & Htemp' & Hobj').
    apply bind_ok in Hobj' as (? & _ & Hobj').
    apply bind_ok in Hobj' as (? & _ & Hobj').
    apply bind_ok in Hobj' as (d & _ & Hobj').
    apply bind_ok in Hobj' as (? & _ & Hobj').
    apply bind_ok in Hobj' as (? & _ & Hobj').
    apply bind_ok in Hobj' as (i & _ & Hobj').
    injection Hobj' as <-.
    cbn in Hname', Hmain'.
    rewrite lookup_insert_ne in Hname' by done.
    rewrite lookup_insert_ne in Hmain' by done.
    injection Hname' as <-. rewrite Hmain in Hmain'. injection Hmain' as <-.
    rewrite Htemp in Htemp'. injection Htemp' as <-.
    destruct (coalesce_not_null d (JStr "N/A")) as (dv & -> & _); [done|].
    destruct (coalesce_not_null i (JStr "N/A")) as (iv & -> & _); [done|].
    eexists. split; [reflexivity|].
    destruct (fields !! "name"), temp; split; reflexivity.
Qed.

Lemma weather_defaults_witness :
  ∃ body : gmap string json,
    (weather_handler (rt := example_builtins) (answering 200 calm_text)
       (ask "Paris")).2 = Ok (Response 200 (JObj body)) ∧
    body !! "description" = Some (JStr "N/A") ∧
    body !! "icon" = Some (JStr "N/A") ∧
    body !! "city" = Some (JStr "Paris") ∧
    body !! "temp" = Some (JNum 15.2).
Proof.
  destruct (weather_defaults (rt := example_builtins) (answering 200 calm_text)
              (ask "Paris") "k3y" "Paris" calm_text (Upstream 200 (Ok calm_text))
              (<["name" := JStr "Paris"]> (<["main" := paris_main]>
                 {["weather" := JArr []]}))
              paris_main (Some (JNum 15.2)))
    as (body & Hbody & Hd & Hi & Hc & Ht & _);
    try solve [reflexivity | repeat split | right; reflexivity].
  exists body. split_and!; [exact Hbody|exact Hd|exact Hi|exact Hc|exact Ht].
Defined.

(** C3. When the [city] query parameter is missing or empty, the handler
    answers 400 with a body holding an [error] field, and performs no
    effect at all: in particular no outbound call is made. *)
Theorem missing_city {rt : Builtins} (w : world) (req : request) :
  query req !! "city" = None ∨ query req !! "city" = Some (JStr "") →
  weather_handler w req =
    ([], Ok (Response 400 (JObj {["error" := JStr "Paramètre 'city' manquant."]}))) ∧
  no_fetch (weather_handler w req).1.
Proof.
  intros Hq.
  assert (truthy (query req !! "city") = false) as Hc
    by (destruct Hq as [-> | ->]; reflexivity).
  rewrite (handler_of_ok w req _ _ (try_no_city w req Hc)).
  split; [reflexivity|apply no_fetch_nil].
Qed.

Lemma missing_city_witness :
  weather_handler (rt := example_builtins) (answering 200 paris_text)
    (Request "GET" "/api/weather" ∅) =
    ([], Ok (Response 400 (JObj {["error" := JStr "Paramètre 'city' manquant."]}))) ∧
  no_fetch (weather_handler (rt := example_builtins) (answering 200 paris_text)
              (Request "GET" "/api/weather" ∅)).1.
Proof.
  apply (missing_city (rt := example_builtins) (answering 200 paris_text)
           (Request "GET" "/api/weather" ∅)).
  left. reflexivity.
Defined.

(** C4. With a non-empty [city] and a configured credential, when the
    upstream call returns a status outside 200-299: for 404 the handler
    answers 404 with error ["Ville introuvable."]; for any other such
    status it answers 500 with one fixed error body, whatever the upstream
    status and body were. *)
Theorem upstream_failure {rt : Builtins} (w : world) (req : request)
    (key encoded rawText : string) (r : upstream_response) :
  accepted w req key →
  encodeURIComponent (query req !! "city") = Ok encoded →
  fetch w (weather_url encoded key) = Ok r → text r = Ok rawText →
  ok r = false →
  (weather_handler w req).2 =
    Ok (if status r =? 404
        then Response 404 (JObj {["error" := JStr "Ville introuvable."]})
        else Response 500
               (JObj {["error" := JStr "Erreur lors de l'appel à l'API météo."]})).
Proof.
  intros (Hc & Hk & Hs) Henc Hr Hraw Hok.
  erewrite handler_of_ok; [reflexivity|].
  rewrite (try_not_ok w req Hc key Hk Hs encoded Henc r rawText Hr Hraw Hok).
  destruct (status r =? 404); reflexivity.
Qed.

Lemma upstream_failure_witness :
  (weather_handler (rt := example_builtins) (answering 404 "city not found")
     (ask "Atlantis")).2 =
    Ok (Response 404 (JObj {["error" := JStr "Ville introuvable."]})) ∧
  (weather_handler (rt := example_builtins) (answering 401 "Invalid API key")
     (ask "Paris")).2 =
    Ok (Response 500
          (JObj {["error" := JStr "Erreur lors de l'appel à l'API météo."]})).
Proof.
  split.
  - apply (upstream_failure (rt := example_builtins)
             (answering 404 "city not found") (ask "Atlantis")
             "k3y" "Atlantis" "city not found" (Upstream 404 (Ok "city not found")));
      solve [reflexivity | repeat split].
  - apply (upstream_failure (rt := example_builtins)
             (answering 401 "Invalid API key") (ask "Paris")
             "k3y" "Paris" "Invalid API key" (Upstream 401 (Ok "Invalid API key")));
      solve [reflexivity | repeat split].
Defined.

(** ** Routing and the run of the process *)

Section Routing.
Context `{Builtins}.

Lemma dispatch_health w req :
  (method req = "GET" ∨ method req = "HEAD") → path req = "/api/health" →
  dispatch w req = Some (health_handler req).
Proof.
  intros Hm Hp. unfold dispatch. rewrite bool_decide_eq_true_2 by done.
  destruct req as [m p q]; simpl in *; subst. reflexivity.
Qed.

Lemma dispatch_weather w req :
  weather_request req → dispatch w req = Some (weather_handler w req).
Proof.
  intros [Hm Hp]. unfold dispatch. rewrite bool_decide_eq_true_2 by done.
  destruct req as [m p q]; simpl in *; subst. reflexivity.
Qed.

Lemma weather_request_route req : weather_request req → weather_route req.
Proof. intros [Hm Hp]. split; [done|]. by rewrite Hp. Qed.

Lemma dispatch_cases w req m :
  dispatch w req = Some m →
  route_matches "/api/health" (path req) = true ∧ m = health_handler req ∨
  route_matches "/api/health" (path req) = false ∧
  weather_route req ∧ m = weather_handler w req.
Proof.
  unfold dispatch, weather_route. case_bool_decide as Hm; [|done].
  unfold routes. cbn.
  destruct (route_matches "/api/health" (path req)); cbn.
  { intros [= <-]. by left. }
  destruct (route_matches "/api/weather" (path req)); cbn; [|done].
  intros [= <-]. by right.
Qed.

Lemma dispatch_none w req :
  dispatch w req = None → ¬ weather_route req.
Proof.
  unfold dispatch, weather_route. intros Hd [Hm Hp].
  rewrite bool_decide_eq_true_2 in Hd by done.
  unfold routes in Hd. cbn in Hd.
  destruct (route_matches "/api/health" (path req)); cbn in Hd; [done|].
  rewrite Hp in Hd. cbn in Hd. done.
Qed.

Lemma handler_without_key_no_fetch w req :
  truthy (JStr <$> process_env w !! "OPENWEATHER_API_KEY") = false →
  no_fetch (weather_handler w req).1.
Proof.
  intros Hs. destruct (truthy (query req !! "city")) eqn:Hc.
  - rewrite (handler_of_ok w req _ _ (try_no_key w req Hc Hs)).
    apply no_fetch_key_trace.
  - rewrite (handler_of_ok w req _ _ (try_no_city w req Hc)).
    apply no_fetch_nil.
Qed.

Lemma serve_without_key env arrivals :
  truthy (JStr <$> env !! "OPENWEATHER_API_KEY") = false →
  no_fetch (serve env arrivals).1 ∧
  Forall2 (λ a answer,
             weather_request (arriving a) →
             truthy (query (arriving a) !! "city") = true →
             answer = Some (Ok (error_response ServerMisconfigured)))
          arrivals (serve env arrivals).2.
Proof.
  intros Hs. induction arrivals as [|a rest [IHt IHa]]; cbn.
  { split; [apply no_fetch_nil|constructor]. }
  destruct (serve env rest) as [t' answers]; cbn in *.
  destruct (dispatch (World env (network a)) (arriving a)) as [[t r]|] eqn:Hd;
    cbn.
  - apply dispatch_cases in Hd as [[Hp Hd]|[_ [Hw Hd]]].
    + injection Hd as -> ->. split; [done|]. constructor; [|done].
      intros [_ Hw]. rewrite Hw in Hp. discriminate Hp.
    + split.
      * apply no_fetch_app; [|done].
        pose proof (handler_without_key_no_fetch
                      (World env (network a)) (arriving a) Hs) as Hn.
        by rewrite <- Hd in Hn.
      * constructor; [|done]. intros _ Hc.
        rewrite (handler_of_ok _ _ _ _
                   (try_no_key (World env (network a)) (arriving a) Hc Hs)) in Hd.
        by injection Hd as -> ->.
  - split; [done|]. constructor; [|done].
    intros Hw. by rewrite dispatch_weather in Hd.
Qed.
End Routing.

(** C5. In a process whose environment, as the launch left it, lacks the
    credential, every weather request with a non-empty [city] is answered
    500 with an error body, and no request of the run reaches the upstream
    provider: the credential has to be in place when the process starts. *)
Theorem credential_required {rt : Builtins} (env : gmap string string)
    (arrivals : list arrival) :
  env !! "OPENWEATHER_API_KEY" = None →
  no_fetch (run env arrivals).1 ∧
  Forall2 (λ a answer,
             weather_request (arriving a) →
             truthy (query (arriving a) !! "city") = true →
             answer =
               Some (Ok (Response 500
                           (JObj {["error" := JStr "Clé API manquante côté serveur."]}))))
          arrivals (run env arrivals).2.
Proof.
  intros Hk.
  assert (truthy (JStr <$> env !! "OPENWEATHER_API_KEY") = false) as Hs
    by (by rewrite Hk).
  destruct (serve_without_key env arrivals Hs) as [Ht Ha].
  unfold run, startup, console_log, emit.
  destruct (serve env arrivals) as [t answers]; cbn in *.
  split; [|done].
  intros url [Hin|Hin]%elem_of_cons; [discriminate|by eapply Ht].
Qed.

Lemma credential_required_witness :
  no_fetch (run (rt := example_builtins) ∅ example_arrivals).1 ∧
  Forall2 (λ a answer,
             weather_request (arriving a) →
             truthy (query (arriving a) !! "city") = true →
             answer =
               Some (Ok (Response 500
                           (JObj {["error" := JStr "Clé API manquante côté serveur."]}))))
          example_arrivals (run (rt := example_builtins) ∅ example_arrivals).2.
Proof.
  apply (credential_required (rt := example_builtins) ∅ example_arrivals).
  reflexivity.
Defined.

(** C6. Whenever an exception arises while the request is handled (the
    encoding of the city, the outbound call or the read of its body fails,
    the body is not JSON, a field of the payload cannot be read), the
    handler answers 500 with one fixed message; the exception goes to the
    console and nothing of it to the response. *)
Theorem exception_hidden {rt : Builtins} (w : world) (req : request) (e : exn) :
  raises w req e →
  ∃ t, weather_handler w req =
         (t ++ [ConsoleError e],
          Ok (Response 500 (JObj {["error" := JStr "Erreur serveur."]}))).
Proof.
  intros [t Ht]%raises_sound. exists t. by apply handler_of_throw.
Qed.

Lemma exception_hidden_witness :
  ∃ t, weather_handler (rt := example_builtins) unreachable (ask "Paris") =
         (t ++ [ConsoleError fetch_failed],
          Ok (Response 500 (JObj {["error" := JStr "Erreur serveur."]}))).
Proof.
  apply (exception_hidden (rt := example_builtins) unreachable (ask "Paris")
           fetch_failed).
  apply (Raises_fetch (rt := example_builtins) unreachable (ask "Paris")
           fetch_failed "k3y" "Paris"); solve [reflexivity | repeat split].
Defined.

(** C7, as amended. When the upstream call succeeds and the parsed payload
    is one on which an unguarded read fails ([null], or [main] absent or
    [null], so that [main.temp] cannot be read), the success path throws a
    [TypeError], the [catch] block takes it, and the answer is the one of
    any other exception: 500 with the fixed message. *)
Theorem unreadable_payload {rt : Builtins} (w : world) (req : request)
    (key encoded rawText : string) (r : upstream_response) (data : json) :
  accepted w req key →
  encodeURIComponent (query req !! "city") = Ok encoded →
  fetch w (weather_url encoded key) = Ok r → text r = Ok rawText →
  ok r = true →
  JSON_parse rawText = Ok data →
  unreadable data →
  ∃ e, weather_result data = Throw e ∧ exn_name e = "TypeError" ∧
       weather_handler w req =
         (body_trace (Some key) (weather_url encoded key) rawText ++ [ConsoleError e],
          Ok (Response 500 (JObj {["error" := JStr "Erreur serveur."]}))).
Proof.
  intros (Hc & Hk & Hs) Henc Hr Hraw Hok Hd Hdata.
  destruct (weather_result_unreadable data Hdata) as (e & He & Hname).
  exists e. split; [done|]. split; [done|].
  apply handler_of_throw.
  rewrite (try_parsed w req Hc key Hk Hs encoded Henc r rawText Hr Hraw data Hok Hd).
  by rewrite He.
Qed.

Lemma unreadable_payload_witness :
  ∃ e, weather_result mainless_payload = Throw e ∧ exn_name e = "TypeError" ∧
       weather_handler (rt := example_builtins) (answering 200 mainless_text)
         (ask "Paris") =
         (body_trace (Some "k3y") (weather_url "Paris" "k3y") mainless_text ++
          [ConsoleError e],
          Ok (Response 500 (JObj {["error" := JStr "Erreur serveur."]}))).
Proof.
  apply (unreadable_payload (rt := example_builtins)
           (answering 200 mainless_text) (ask "Paris") "k3y" "Paris"
           mainless_text (Upstream 200 (Ok mainless_text)) mainless_payload);
    try solve [reflexivity | repeat split].
  right. exists undefined. split; reflexivity.
Defined.

(** C7, as stated, fails on a payload whose unguarded field [name] is
    absent: nothing throws, and the answer is 200 with a body that has no
    [city]. *)
Lemma nameless_answered :
  ¬ unguarded_fields_expected nameless_payload ∧
  @JSON_parse example_builtins nameless_text = Ok nameless_payload ∧
  weather_try (rt := example_builtins) (answering 200 nameless_text) (ask "Paris") =
    (body_trace (Some "k3y") (weather_url "Paris" "k3y") nameless_text,
     Ok (Response 200
           (JObj (<["temp" := JNum 15.2]>
                  (<["description" := JStr "ciel dégagé"]>
                   {["icon" := JStr "01d"]}))))) ∧
  (weather_handler (rt := example_builtins) (answering 200 nameless_text)
     (ask "Paris")).2 ≠
    Ok (Response 500 (JObj {["error" := JStr "Erreur serveur."]})).
Proof.
  split; [|split; [reflexivity|split; [reflexivity|]]].
  - intros (fields & name & main & temp & Hdata & Hname & _).
    injection Hdata as <-. discriminate Hname.
  - intros Heq. apply (f_equal (fmap res_status)) in Heq. discriminate Heq.
Qed.

(** C8. The weather handler always answers.  Each of its five error
    outcomes (city missing: 400; credential missing: 500; upstream 404:
    404; other upstream failure: 500; exception: 500) is answered with the
    status of its kind and a body made of the single field [error], a
    message, and nothing else; any answer whose status is not 200 is one of
    these five. *)
Theorem errors_single_field {rt : Builtins} (w : world) (req : request) :
  ∃ t resp, weather_handler w req = (t, Ok resp) ∧
    outcome w req resp ∧
    (res_status resp ≠ 200 →
     ∃ k, resp = Response (error_status k)
                   (JObj {["error" := JStr (error_message k)]})).
Proof.
  assert (∃ t resp, weather_handler w req = (t, Ok resp) ∧ outcome w req resp)
    as (t & resp & Hw & Hout).
  { unfold weather_handler.
    destruct (weather_try_path w req)
      as [Hc|Hc Hs|key e Hacc He|key enc e Hacc Henc He
         |key enc r e Hacc Henc Hr He
         |key enc r raw Hacc Henc Hr Hraw Hok
         |key enc r raw e Hacc Henc Hr Hraw Hok He
         |key enc r raw data Hacc Henc Hr Hraw Hok Hd];
      [..|destruct (weather_result data) as [obj|e] eqn:Hobj]; cbn;
      eexists _, _; (split; [reflexivity|]).
    - by apply Outcome_missing_parameter.
    - by apply Outcome_misconfigured.
    - eapply Outcome_internal_error, Raises_encode; eassumption.
    - eapply Outcome_internal_error, Raises_fetch; eassumption.
    - eapply Outcome_internal_error, Raises_text; eassumption.
    - destruct (status r =? 404) eqn:Hst.
      + apply Z.eqb_eq in Hst. eapply Outcome_city_not_found; eassumption.
      + apply Z.eqb_neq in Hst. eapply Outcome_upstream_error; eassumption.
    - eapply Outcome_internal_error, Raises_parse; eassumption.
    - eapply Outcome_success; eassumption.
    - eapply Outcome_internal_error, Raises_shape; eassumption. }
  exists t, resp. split; [done|]. split; [done|].
  intros Hst. destruct Hout;
    [by exists MissingParameter|by exists ServerMisconfigured
    |by exists CityNotFound|by exists UpstreamError|by exists InternalError
    |done].
Qed.

(** C9. Every GET request to the health path is answered 200 with exactly
    the body [{status:"ok"}], the same whatever the request and the world
    hold, without an exception and without any effect. *)
Theorem health_fixed {rt : Builtins} (w : world) (req : request) :
  method req = "GET" → path req = "/api/health" →
  dispatch w req =
    Some ([], Ok (Response 200 (JObj {["status" := JStr "ok"]}))).
Proof. intros Hm Hp. rewrite dispatch_health by auto. reflexivity. Qed.

Lemma health_fixed_witness :
  dispatch (rt := example_builtins) unreachable (Request "GET" "/api/health" ∅) =
    Some ([], Ok (Response 200 (JObj {["status" := JStr "ok"]}))).
Proof.
  apply (health_fixed (rt := example_builtins) unreachable
           (Request "GET" "/api/health" ∅)); reflexivity.
Defined.

(** C10. The [city] check comes first: with neither [city] nor credential
    the answer is 400 and the environment is not even read.  With a [city],
    each request reads and logs the credential from the environment before
    anything else, and an empty credential is answered like an absent one,
    with 500. *)
Theorem city_checked_first {rt : Builtins} (w : world) (req : request) :
  (query req !! "city" = None →
   process_env w !! "OPENWEATHER_API_KEY" = None →
   weather_handler w req =
     ([], Ok (Response 400 (JObj {["error" := JStr "Paramètre 'city' manquant."]})))) ∧
  (truthy (query req !! "city") = true →
   ∃ t, (weather_handler w req).1 =
          EnvRead "OPENWEATHER_API_KEY" ::
          ConsoleLog [str "API KEY côté serveur :";
                      JStr <$> process_env w !! "OPENWEATHER_API_KEY"] :: t) ∧
  (truthy (query req !! "city") = true →
   process_env w !! "OPENWEATHER_API_KEY" = None ∨
   process_env w !! "OPENWEATHER_API_KEY" = Some "" →
   (weather_handler w req).2 =
     Ok (Response 500 (JObj {["error" := JStr "Clé API manquante côté serveur."]}))).
Proof.
  split; [|split].
  - intros Hq _.
    assert (truthy (query req !! "city") = false) as Hc by (by rewrite Hq).
    by rewrite (handler_of_ok w req _ _ (try_no_city w req Hc)).
  - intros Hc. destruct (try_reads_key w req Hc) as [t Ht].
    destruct (weather_try w req) as [t0 [resp|e]] eqn:Htry; cbn in Ht; subst t0.
    + exists t. by rewrite (handler_of_ok w req _ _ Htry).
    + exists (t ++ [ConsoleError e]). by rewrite (handler_of_throw w req _ _ Htry).
  - intros Hc Hk.
    assert (truthy (JStr <$> process_env w !! "OPENWEATHER_API_KEY") = false)
      as Hs by (destruct Hk as [-> | ->]; reflexivity).
    by rewrite (handler_of_ok w req _ _ (try_no_key w req Hc Hs)).
Qed.

Lemma city_checked_first_witness :
  weather_handler (rt := example_builtins) (World ∅ (λ _, Throw fetch_failed))
    (Request "GET" "/api/weather" ∅) =
    ([], Ok (Response 400 (JObj {["error" := JStr "Paramètre 'city' manquant."]}))) ∧
  (weather_handler (rt := example_builtins)
     (World {["OPENWEATHER_API_KEY" := ""]} (λ _, Throw fetch_failed))
     (ask "Paris")).2 =
    Ok (Response 500 (JObj {["error" := JStr "Clé API manquante côté serveur."]})).
Proof.
  split.
  - apply (city_checked_first (rt := example_builtins)
             (World ∅ (λ _, Throw fetch_failed))
             (Request "GET" "/api/weather" ∅)); reflexivity.
  - apply (city_checked_first (rt := example_builtins)
             (World {["OPENWEATHER_API_KEY" := ""]} (λ _, Throw fetch_failed))
             (ask "Paris")); [reflexivity|right; reflexivity].
Defined.

(** * Further properties of the handlers *)

Arguments error_response : simpl never.

(** ** The answers tell the outcomes apart *)

Lemma Ok_inj {A : Type} (a b : A) : Ok a = Ok b → a = b.
Proof. congruence. Qed.

Lemma error_message_inj k k' : error_message k = error_message k' → k = k'.
Proof. destruct k, k'; first [reflexivity | discriminate]. Qed.

Lemma error_response_inj k k' : error_response k = error_response k' → k = k'.
Proof.
  intros Heq. apply error_message_inj.
  apply (f_equal (λ resp, match res_body resp with
                          | JObj body => body !! "error"
                          | _ => None
                          end)) in Heq.
  unfold error_response in Heq. cbn in Heq.
  rewrite !lookup_singleton_eq in Heq. congruence.
Qed.

Lemma success_not_error obj k : res_json 200 obj ≠ error_response k.
Proof.
  intros Heq. apply (f_equal res_status) in Heq. destruct k; discriminate.
Qed.

Lemma ok_bounds r : ok r = true ↔ 200 ≤ status r ≤ 299.
Proof. unfold ok. rewrite andb_true_iff, !Z.leb_le. tauto. Qed.

Lemma ok_false_bounds r : ok r = false ↔ status r < 200 ∨ 299 < status r.
Proof.
  rewrite <- not_true_iff_false, ok_bounds. lia.
Qed.

Lemma accepted_unique `{Builtins} w req key key' :
  accepted w req key → accepted w req key' → key = key'.
Proof. intros (_ & Hk & _) (_ & Hk' & _). congruence. Qed.

(** The answer of the handler on each path. *)
Ltac paths w req :=
  unfold weather_handler;
  destruct (weather_try_path w req)
    as [Hc|Hc Hs|key e Hacc He|key enc e Hacc Henc He|key enc r e Hacc Henc Hr He
       |key enc r raw Hacc Henc Hr Hraw Hok
       |key enc r raw e Hacc Henc Hr Hraw Hok He
       |key enc r raw data Hacc Henc Hr Hraw Hok Hd];
  [..|destruct (weather_result data) as [obj|e] eqn:Hobj]; cbn.

Section Outcomes.
Context `{Builtins}.
Variables (w : world) (req : request).

Ltac other_kind :=
  match goal with
  | Heq : Ok _ = Ok _ |- _ =>
      apply Ok_inj in Heq;
      first [apply error_response_inj in Heq; discriminate Heq
            |by apply success_not_error in Heq
            |symmetry in Heq; by apply success_not_error in Heq]
  end.

(** X1. The answer is the 400 of a missing parameter exactly when
    [req.query.city] is falsy: an array or an object under [city], even an
    empty one, passes the check. *)
Theorem answer_missing_parameter :
  (weather_handler w req).2 = Ok (error_response MissingParameter) ↔
  truthy (query req !! "city") = false.
Proof.
  split.
  - paths w req; intros Heq; try done; try other_kind;
      try (destruct Hacc as (? & _); congruence).
    apply Ok_inj, error_response_inj in Heq. by destruct (status r =? 404).
  - intros Hc. by rewrite (handler_of_ok w req _ _ (try_no_city w req Hc)).
Qed.

(** X2. The answer is the 500 of a missing credential exactly when [city]
    is given and the credential is absent from the environment or empty. *)
Theorem answer_misconfigured :
  (weather_handler w req).2 = Ok (error_response ServerMisconfigured) ↔
  truthy (query req !! "city") = true ∧
  (process_env w !! "OPENWEATHER_API_KEY" = None ∨
   process_env w !! "OPENWEATHER_API_KEY" = Some "").
Proof.
  split.
  - paths w req; intros Heq; try done; try other_kind.
    + split; [done|].
      destruct (process_env w !! "OPENWEATHER_API_KEY") as [[|c k]|]; auto.
      discriminate Hs.
    + apply Ok_inj, error_response_inj in Heq. by destruct (status r =? 404).
  - intros [Hc Hk].
    assert (truthy (JStr <$> process_env w !! "OPENWEATHER_API_KEY") = false)
      as Hs by (destruct Hk as [-> | ->]; reflexivity).
    by rewrite (handler_of_ok w req _ _ (try_no_key w req Hc Hs)).
Qed.

(** X3. The answer is 404 "Ville introuvable." exactly when the request
    passes both checks, the outbound call resolves with status 404 and its
    body can be read. *)
Theorem answer_city_not_found :
  (weather_handler w req).2 = Ok (error_response CityNotFound) ↔
  ∃ key encoded r rawText,
    accepted w req key ∧
    encodeURIComponent (query req !! "city") = Ok encoded ∧
    fetch w (weather_url encoded key) = Ok r ∧ text r = Ok rawText ∧
    status r = 404.
Proof.
  split.
  - paths w req; intros Heq; try done; try other_kind.
    apply Ok_inj, error_response_inj in Heq.
    destruct (status r =? 404) eqn:Hst; [|discriminate].
    apply Z.eqb_eq in Hst. by exists key, enc, r, raw.
  - intros (key & enc & r & raw & (Hc & Hk & Hs) & Henc & Hr & Hraw & Hst).
    assert (ok r = false) as Hok by (apply ok_false_bounds; lia).
    rewrite (handler_of_ok w req _ _
               (try_not_ok w req Hc key Hk Hs enc Henc r raw Hr Hraw Hok)).
    by rewrite Hst.
Qed.

(** X4. The answer is the 500 of an upstream error exactly when the request
    passes both checks, the body of the outbound call can be read, and its
    status is below 200 or above 299 and is not 404. *)
Theorem answer_upstream_error :
  (weather_handler w req).2 = Ok (error_response UpstreamError) ↔
  ∃ key encoded r rawText,
    accepted w req key ∧
    encodeURIComponent (query req !! "city") = Ok encoded ∧
    fetch w (weather_url encoded key) = Ok r ∧ text r = Ok rawText ∧
    (status r < 200 ∨ 299 < status r) ∧ status r ≠ 404.
Proof.
  split.
  - paths w req; intros Heq; try done; try other_kind.
    apply Ok_inj, error_response_inj in Heq.
    destruct (status r =? 404) eqn:Hst; [discriminate|].
    apply Z.eqb_neq in Hst. apply ok_false_bounds in Hok.
    by exists key, enc, r, raw.
  - intros (key & enc & r & raw & (Hc & Hk & Hs) & Henc & Hr & Hraw & Hb & Hst).
    apply ok_false_bounds in Hb. apply Z.eqb_neq in Hst.
    rewrite (handler_of_ok w req _ _
               (try_not_ok w req Hc key Hk Hs enc Henc r raw Hr Hraw Hb)).
    by rewrite Hst.
Qed.

(** X5. The answer is 500 "Erreur serveur." exactly when an exception
    arises in the [try] block; the two other 500 answers never stand for an
    exception. *)
Theorem answer_internal_error :
  (weather_handler w req).2 = Ok (error_response InternalError) ↔
  ∃ e, raises w req e.
Proof.
  split.
  - paths w req; intros Heq; try other_kind;
      try (exists e;
           eauto using Raises_encode, Raises_fetch, Raises_text, Raises_parse,
             Raises_shape; fail).
    apply Ok_inj, error_response_inj in Heq. by destruct (status r =? 404).
  - intros [e [t Ht]%raises_sound].
    by rewrite (handler_of_throw w req _ _ Ht).
Qed.

(** X6. The answer is the success answer exactly when the request passes
    both checks, the outbound call resolves with a status from 200 to 299,
    its body is read and parsed, and the payload is not one on which an
    unguarded read fails.  The answer is sent with status 200 whichever of
    these statuses the upstream gave. *)
Theorem answer_success :
  (∃ obj, (weather_handler w req).2 = Ok (res_json 200 obj)) ↔
  ∃ key encoded r rawText data,
    accepted w req key ∧
    encodeURIComponent (query req !! "city") = Ok encoded ∧
    fetch w (weather_url encoded key) = Ok r ∧ text r = Ok rawText ∧
    200 ≤ status r ≤ 299 ∧
    JSON_parse rawText = Ok data ∧ ¬ unreadable data.
Proof.
  split.
  - paths w req; intros [obj' Heq]; try done;
      try (apply Ok_inj in Heq; symmetry in Heq;
           by apply success_not_error in Heq).
    apply ok_bounds in Hok. exists key, enc, r, raw, data.
    split_and!; try done; try lia.
    intros (e & He & _)%weather_result_unreadable. congruence.
  - intros (key & enc & r & raw & data & (Hc & Hk & Hs) & Henc & Hr & Hraw
            & Hb & Hd & Hdata).
    apply ok_bounds in Hb.
    destruct (weather_result_readable data Hdata) as [obj Hobj].
    exists obj. erewrite handler_of_ok; [reflexivity|].
    rewrite (try_parsed w req Hc key Hk Hs enc Henc r raw Hr Hraw data Hb Hd).
    by rewrite Hobj.
Qed.
End Outcomes.

(** ** The payload and the success answer *)

Lemma unreadable_or_not (data : json) : unreadable data ∨ ¬ unreadable data.
Proof.
  unfold unreadable.
  destruct data as [| | | | |fields]; [by left; left|..].
  1-4: left; right; by exists undefined.
  destruct (fields !! "main") as [main|] eqn:Hmain.
  - destruct (nullish (Some main)) eqn:Hn.
    + left. right. exists (Some main). cbn. by rewrite Hmain.
    + right. intros [?|(m & Hm & Hnull)]; [done|].
      cbn in Hm. rewrite Hmain in Hm. injection Hm as <-. congruence.
  - left. right. exists undefined. cbn. by rewrite Hmain.
Qed.

(** X7. Reading the payload throws exactly when the payload is [null] or
    its [main] is absent or [null]: whatever [weather] holds (a string, a
    number, an object, an array of anything) is read without an
    exception. *)
Theorem weather_result_throws_iff (data : json) :
  (∃ e, weather_result data = Throw e) ↔ unreadable data.
Proof.
  split.
  - intros [e He].
    destruct (unreadable_or_not data) as [Hu|Hr]; [done|].
    destruct (weather_result_readable data Hr) as [obj Hobj]. congruence.
  - intros (e & He & _)%weather_result_unreadable. by exists e.
Qed.



(** The object literal of the success branch has its four properties, the
    last two filled by [??]. *)
Lemma weather_result_shape (data : json) obj :
  weather_result data = Ok obj →
  ∃ name temp description icon,
    get_prop (Some data) "name" = Ok name ∧
    obj = [("city", name); ("temp", temp);
           ("description", coalesce description (JStr "N/A"));
           ("icon", coalesce icon (JStr "N/A"))].
Proof.
  unfold weather_result. intros Hobj.
  apply bind_ok in Hobj as (name & Hname & Hobj).
  apply bind_ok in Hobj as (main & _ & Hobj).
  apply bind_ok in Hobj as (temp & _ & Hobj).
  apply bind_ok in Hobj as (weather & _ & Hobj).
  apply bind_ok in Hobj as (first & _ & Hobj).
  apply bind_ok in Hobj as (description & _ & Hobj).
  apply bind_ok in Hobj as (weather' & _ & Hobj).
  apply bind_ok in Hobj as (first' & _ & Hobj).
  apply bind_ok in Hobj as (icon & _ & Hobj).
  injection Hobj as <-. eauto 8.
Qed.

(** X8. Every success body has a [description] and an [icon], has a
    [city] exactly when the payload has a [name], and has no property
    besides [city], [temp], [description] and [icon]. *)
Theorem success_body (data : json) (obj : list (string * value)) :
  weather_result data = Ok obj →
  ∃ body : gmap string json,
    res_json 200 obj = Response 200 (JObj body) ∧
    is_Some (body !! "description") ∧
    is_Some (body !! "icon") ∧
    (is_Some (body !! "city") ↔
     ∃ name, get_prop (Some data) "name" = Ok (Some name)) ∧
    dom body ⊆ ({["city"; "temp"; "description"; "icon"]} : gset string).
Proof.
  intros (name & temp & d & i & Hname & ->)%weather_result_shape.
  destruct (coalesce_not_null d (JStr "N/A")) as (dv & -> & _); [done|].
  destruct (coalesce_not_null i (JStr "N/A")) as (iv & -> & _); [done|].
  eexists. split; [reflexivity|]. rewrite Hname.
  destruct name, temp; (split_and!; [by eexists|by eexists| |]);
    try (unfold res_json; cbn; rewrite ?dom_insert_L, dom_empty_L;
         compute_done).
  - split; [by eexists|by intros _; eexists].
  - split; [by eexists|by intros _; eexists].
  - split; [by intros [? ?]|]. intros [? [=]].
  - split; [by intros [? ?]|]. intros [? [=]].
Qed.

Lemma success_body_witness :
  ∃ body : gmap string json,
    res_json 200 [("city", undefined); ("temp", Some (JNum 15.2));
                  ("description", str "ciel dégagé"); ("icon", str "01d")] =
      Response 200 (JObj body) ∧
    is_Some (body !! "description") ∧
    is_Some (body !! "icon") ∧
    (is_Some (body !! "city") ↔
     ∃ name, get_prop (Some nameless_payload) "name" = Ok (Some name)) ∧
    dom body ⊆ ({["city"; "temp"; "description"; "icon"]} : gset string).
Proof. apply (success_body nameless_payload). reflexivity. Defined.

(** X9. A [description] found in the first element of [weather] and not
    [null] reaches the body of the answer as [JSON.stringify] writes it,
    whatever its type: the handler does not check that it is a string, and
    only [null] and [undefined] are replaced by ["N/A"]. *)
Theorem description_passthrough (fields first : gmap string json)
    (rest : list json) (d : json) (obj : list (string * value)) :
  weather_result (JObj fields) = Ok obj →
  fields !! "weather" = Some (JArr (JObj first :: rest)) →
  first !! "description" = Some d → d ≠ JNull →
  ∃ body : gmap string json,
    res_json 200 obj = Response 200 (JObj body) ∧
    body !! "description" = Some (stringify d).
Proof.
  unfold weather_result. intros Hobj Hw Hd Hnull.
  apply bind_ok in Hobj as (name & _ & Hobj).
  apply bind_ok in Hobj as (main & _ & Hobj).
  apply bind_ok in Hobj as (temp & _ & Hobj).
  apply bind_ok in Hobj as (weather & Hweather & Hobj).
  apply bind_ok in Hobj as (first' & Hfirst & Hobj).
  apply bind_ok in Hobj as (description & Hdescription & Hobj).
  apply bind_ok in Hobj as (? & _ & Hobj).
  apply bind_ok in Hobj as (? & _ & Hobj).
  apply bind_ok in Hobj as (icon & _ & Hobj).
  injection Hobj as <-.
  cbn in Hweather. rewrite Hw in Hweather. injection Hweather as <-.
  cbn in Hfirst. injection Hfirst as <-.
  cbn in Hdescription. rewrite Hd in Hdescription. injection Hdescription as <-.
  assert (coalesce (Some d) (JStr "N/A") = Some d) as -> by (by destruct d).
  destruct (coalesce_not_null icon (JStr "N/A")) as (iv & -> & _); [done|].
  eexists. split; [reflexivity|]. destruct name, temp; reflexivity.
Qed.

Lemma description_passthrough_witness :
  ∃ body : gmap string json,
    res_json 200 [("city", str "Paris"); ("temp", Some (JNum 15.2));
                  ("description", Some (JNum 7)); ("icon", str "N/A")] =
      Response 200 (JObj body) ∧
    body !! "description" = Some (JNum 7).
Proof.
  apply (description_passthrough
           (<["name" := JStr "Paris"]> (<["main" := paris_main]>
              {["weather" := JArr [JObj {["description" := JNum 7]}]]}))
           {["description" := JNum 7]} [] (JNum 7));
    solve [reflexivity | discriminate].
Defined.

(** ** The outbound call *)

Section Calls.
Context `{Builtins}.
Variables (w : world) (req : request).

(** The events of a request that passes both checks and whose city is
    encoded: the credential and the URL are logged, the call is made, and
    no other call follows. *)
Lemma trace_of_call apiKey encoded :
  accepted w req apiKey →
  encodeURIComponent (query req !! "city") = Ok encoded →
  ∃ after,
    (weather_handler w req).1 =
      key_trace (Some apiKey) ++
      call_trace (Some apiKey) (weather_url encoded apiKey) ++ after ∧
    fetch_calls after = [].
Proof.
  intros Hacc' Henc'. pose proof Hacc' as (Hc' & Hk' & Hs').
  paths w req; try congruence;
    try (rewrite Hk' in Hs; unfold str in Hs'; cbn in Hs; congruence);
    try (assert (key = apiKey) as -> by (by eapply accepted_unique));
    try (assert (enc = encoded) as -> by congruence);
    try congruence.
  all: eexists; split; [reflexivity|reflexivity].
Qed.

(** A request that does not pass the checks, or whose city cannot be
    encoded, makes no call. *)
Lemma calls_cases :
  fetch_calls (weather_handler w req).1 = [] ∨
  ∃ key encoded,
    accepted w req key ∧
    encodeURIComponent (query req !! "city") = Ok encoded ∧
    fetch_calls (weather_handler w req).1 = [weather_url encoded key].
Proof.
  destruct (truthy (query req !! "city")) eqn:Hc.
  2:{ left. by rewrite (handler_of_ok w req _ _ (try_no_city w req Hc)). }
  destruct (truthy (JStr <$> process_env w !! "OPENWEATHER_API_KEY")) eqn:Hs.
  2:{ left. by rewrite (handler_of_ok w req _ _ (try_no_key w req Hc Hs)). }
  destruct (process_env w !! "OPENWEATHER_API_KEY") as [key|] eqn:Hk;
    [|discriminate].
  destruct (encodeURIComponent (query req !! "city")) as [enc|e] eqn:Henc.
  2:{ left. by rewrite (handler_of_throw w req _ _
                          (try_encode_throws w req Hc key Hk Hs e Henc)). }
  right. exists key, enc. split; [done|]. split; [done|].
  destruct (trace_of_call key enc) as (after & -> & Hafter); [done..|].
  unfold fetch_calls in *. rewrite !omap_app, Hafter. reflexivity.
Qed.
End Calls.

(** X10. A request that passes both checks and whose city is encoded makes
    exactly one outbound call, to the URL built from the encoded city and
    the credential, whatever the upstream does: there is no second attempt
    after a network failure or an error status. *)
Theorem single_call {rt : Builtins} (w : world) (req : request)
    (key encoded : string) :
  accepted w req key →
  encodeURIComponent (query req !! "city") = Ok encoded →
  fetch_calls (weather_handler w req).1 = [weather_url encoded key].
Proof.
  intros Hacc Henc.
  destruct (trace_of_call w req key encoded Hacc Henc) as (after & -> & Hafter).
  unfold fetch_calls in *. rewrite !omap_app, Hafter. reflexivity.
Qed.

Lemma single_call_witness :
  fetch_calls (weather_handler (rt := example_builtins) unreachable
                 (ask "São Paulo")).1 =
    [weather_url "S%C3%A3o%20Paulo" "k3y"].
Proof.
  apply (single_call (rt := example_builtins) unreachable (ask "São Paulo")
           "k3y" "S%C3%A3o%20Paulo"); solve [reflexivity | repeat split].
Defined.

(** X11. Every outbound call of the handler goes to a URL built from the
    encoded [city] of the request and the credential of the environment,
    and is made only after both checks have passed. *)
Theorem call_only_when_accepted {rt : Builtins} (w : world) (req : request)
    (url : string) :
  url ∈ fetch_calls (weather_handler w req).1 →
  ∃ key encoded,
    accepted w req key ∧
    encodeURIComponent (query req !! "city") = Ok encoded ∧
    url = weather_url encoded key.
Proof.
  destruct (calls_cases w req) as [->|(key & enc & Hacc & Henc & ->)].
  - by intros ?%elem_of_nil.
  - intros ->%list_elem_of_singleton. by exists key, enc.
Qed.

Lemma call_only_when_accepted_witness :
  ∃ key encoded,
    accepted (answering 200 paris_text) (ask "Paris") key ∧
    @encodeURIComponent example_builtins (query (ask "Paris") !! "city") =
      Ok encoded ∧
    weather_url "Paris" "k3y" = weather_url encoded key.
Proof.
  apply (call_only_when_accepted (rt := example_builtins)
           (answering 200 paris_text) (ask "Paris") (weather_url "Paris" "k3y")).
  vm_compute. left.
Defined.

(** X12. A request that passes both checks writes the credential to the
    console in clear, alone and inside the URL, before the outbound call
    is made. *)
Theorem credential_logged {rt : Builtins} (w : world) (req : request)
    (key encoded : string) :
  accepted w req key →
  encodeURIComponent (query req !! "city") = Ok encoded →
  ∃ before after,
    (weather_handler w req).1 =
      before ++ FetchCall (weather_url encoded key) :: after ∧
    ConsoleLog [str "API KEY côté serveur :"; str key] ∈ before ∧
    ConsoleLog [str "URL appelée :"; str (weather_url encoded key)] ∈ before.
Proof.
  intros Hacc Henc.
  destruct (trace_of_call w req key encoded Hacc Henc) as (after & -> & _).
  eexists (_ :: _ :: _ :: _ :: [_]), after.
  split; [reflexivity|]. split; set_solver.
Qed.

Lemma credential_logged_witness :
  ∃ before after,
    (weather_handler (rt := example_builtins) (answering 200 paris_text)
       (ask "Paris")).1 =
      before ++ FetchCall (weather_url "Paris" "k3y") :: after ∧
    ConsoleLog [str "API KEY côté serveur :"; str "k3y"] ∈ before ∧
    ConsoleLog [str "URL appelée :"; str (weather_url "Paris" "k3y")] ∈ before.
Proof.
  apply (credential_logged (rt := example_builtins) (answering 200 paris_text)
           (ask "Paris") "k3y" "Paris"); solve [reflexivity | repeat split].
Defined.

(** X13. When the city cannot be encoded, the answer is 500
    "Erreur serveur." and no outbound call is made. *)
Theorem encode_failure {rt : Builtins} (w : world) (req : request)
    (key : string) (e : exn) :
  accepted w req key →
  encodeURIComponent (query req !! "city") = Throw e →
  (weather_handler w req).2 =
    Ok (Response 500 (JObj {["error" := JStr "Erreur serveur."]})) ∧
  fetch_calls (weather_handler w req).1 = [].
Proof.
  intros (Hc & Hk & Hs) He.
  by rewrite (handler_of_throw w req _ _
                (try_encode_throws w req Hc key Hk Hs e He)).
Qed.

Lemma encode_failure_witness :
  (weather_handler (rt := checked_builtins) (answering 200 paris_text)
     (ask high_surrogate)).2 =
    Ok (Response 500 (JObj {["error" := JStr "Erreur serveur."]})) ∧
  fetch_calls
    (weather_handler (rt := checked_builtins) (answering 200 paris_text)
       (ask high_surrogate)).1 = [].
Proof.
  apply (encode_failure (rt := checked_builtins) (answering 200 paris_text)
           (ask high_surrogate) "k3y" (Exn "URIError" "URI malformed"));
    solve [reflexivity | repeat split].
Defined.

(** X14. The body of the upstream response is read before its status is
    looked at: when the read fails, the answer is 500 "Erreur serveur."
    whatever the status was, also for a 404. *)
Theorem unread_body_masks_status {rt : Builtins} (w : world) (req : request)
    (key encoded : string) (r : upstream_response) (e : exn) :
  accepted w req key →
  encodeURIComponent (query req !! "city") = Ok encoded →
  fetch w (weather_url encoded key) = Ok r →
  text r = Throw e →
  (weather_handler w req).2 =
    Ok (Response 500 (JObj {["error" := JStr "Erreur serveur."]})) ∧
  ConsoleError e ∈ (weather_handler w req).1.
Proof.
  intros (Hc & Hk & Hs) Henc Hr He.
  rewrite (handler_of_throw w req _ _
             (try_text_throws w req Hc key Hk Hs encoded Henc r e Hr He)).
  split; [reflexivity|]. cbn. set_solver.
Qed.

Lemma unread_body_masks_status_witness :
  (weather_handler (rt := example_builtins) cut_short (ask "Atlantis")).2 =
    Ok (Response 500 (JObj {["error" := JStr "Erreur serveur."]})) ∧
  ConsoleError fetch_failed ∈
    (weather_handler (rt := example_builtins) cut_short (ask "Atlantis")).1.
Proof.
  apply (unread_body_masks_status (rt := example_builtins) cut_short
           (ask "Atlantis") "k3y" "Atlantis" (Upstream 404 (Throw fetch_failed))
           fetch_failed);
    solve [reflexivity | repeat split].
Defined.

(** ** The process *)



Lemma fetch_calls_app t t' :
  fetch_calls (t ++ t') = fetch_calls t ++ fetch_calls t'.
Proof. apply omap_app. Qed.

Arguments fetch_calls : simpl never.

Lemma serve_calls `{Builtins} env arrivals :
  ∃ per : list (list string),
    fetch_calls (serve env arrivals).1 = concat per ∧
    Forall2 (calls_of_arrival env) arrivals per.
Proof.
  induction arrivals as [|a rest (per & Hper & IH)]; cbn.
  { exists []. split; [reflexivity|constructor]. }
  destruct (serve env rest) as [t' answers]; cbn [fst] in *.
  destruct (dispatch (World env (network a)) (arriving a)) as [[t r]|] eqn:Hd;
    cbn [fst].
  - exists (fetch_calls t :: per). rewrite fetch_calls_app, Hper.
    split; [reflexivity|]. constructor; [|done].
    apply dispatch_cases in Hd as [[_ Hd]|[_ [Hroute Hd]]].
    + injection Hd as -> ->. unfold fetch_calls. cbn.
      split; [cbn; lia|]. by intros url ?%elem_of_nil.
    + pose proof (calls_cases (World env (network a)) (arriving a)) as Hcalls.
      rewrite <- Hd in Hcalls. cbn [fst] in Hcalls.
      destruct Hcalls as [->|(key & enc & Hacc & Henc & ->)].
      * split; [cbn; lia|]. by intros url ?%elem_of_nil.
      * split; [cbn; lia|].
        intros url ->%list_elem_of_singleton. split; [done|].
        by exists key, enc.
  - exists ([] :: per). split; [done|]. constructor; [|done].
    split; [cbn; lia|]. by intros url ?%elem_of_nil.
Qed.

(** X16. The outbound calls of a run are those of its requests, one
    request after the other, and starting adds none.  A request makes at
    most one call, and makes it only if Express hands it to the weather
    handler and it passes both checks: a health request, or a request no
    route matches, makes none. *)
Theorem run_calls {rt : Builtins} (env : gmap string string)
    (arrivals : list arrival) :
  ∃ per : list (list string),
    fetch_calls (run env arrivals).1 = concat per ∧
    Forall2 (λ a calls,
               (length calls ≤ 1)%nat ∧
               ∀ url, url ∈ calls →
                 weather_route (arriving a) ∧
                 ∃ key encoded,
                   accepted (World env (network a)) (arriving a) key ∧
                   encodeURIComponent (query (arriving a) !! "city") = Ok encoded ∧
                   url = weather_url encoded key)
            arrivals per.
Proof.
  destruct (serve_calls env arrivals) as (per & Hper & Hall).
  exists per. split; [|exact Hall].
  unfold run, startup, console_log, emit.
  destruct (serve env arrivals) as [t answers]. exact Hper.
Qed.
